(** * go-notify: schema-versioned notifications over a queue

    A shallow embedding of [notify.go] (both revisions of the file: the
    synchronous one, whose [handle] returns its result, and the earlier
    channel-based one, whose [handle] writes its results on [n.ch]).

    The Go standard library is modelled at its interface:
    - [encoding/json] works on documents ([json]); a byte string is seen
      through the scanner as either a document or not one ([bytes]);
    - [encoding/base64] is seen through [StdEncoding.DecodeString]: a Go
      string either is the encoding of some bytes or does not decode
      ([gostring]); among those that do not are the RFC 3339 timestamps
      [time.Time] marshals to;
    - the queue (the [SQS] interface) is a class of state-passing methods,
      and every call made on it is entered in a log;
    - [time.Now()] is an argument, [time.Sleep] is not modelled, and a
      polling loop is bounded by a number of polls. *)

From Stdlib Require Import ZArith NArith Ascii String List Lia.
From stdpp Require Import base option countable gmap strings list.

Local Open Scope string_scope.
Local Open Scope Z_scope.
Local Open Scope list_scope.

(** ** Wire data *)

Module Wire.

(** A JSON document, a Go string and a byte string, each seen through the
    library function that reads it. Numbers are integer literals. *)
#[warnings="-register-all"]
Inductive json : Type :=
  | JNull
  | JBool (b : bool)
  | JNum (n : Z)
  | JStr (s : gostring)
  | JArr (items : list json)
  | JObj (members : list (string * json))
with gostring : Type :=
  | Text (s : string)        (* a string that is not valid standard base64 *)
  | Stamp (t : Z)            (* the RFC 3339 form of the instant t *)
  | B64 (b : bytes)          (* StdEncoding.EncodeToString b *)
with bytes : Type :=
  | Raw (s : string)         (* bytes that are not a JSON document *)
  | Doc (j : json).          (* the bytes of the document j *)

(** Encoding into stdpp's generic trees, to get decidable equality and
    countability (type names are map keys). *)
Definition leaf : Type := bool + Z + string.

Fixpoint json_tree (j : json) : gen_tree leaf :=
  match j with
  | JNull => GenNode 0 []
  | JBool b => GenNode 1 [GenLeaf (inl (inl b))]
  | JNum n => GenNode 2 [GenLeaf (inl (inr n))]
  | JStr s => GenNode 3 [gostring_tree s]
  | JArr items => GenNode 4 (List.map json_tree items)
  | JObj members =>
      GenNode 5 (List.map (fun kv => GenNode 6 [GenLeaf (inr (fst kv)); json_tree (snd kv)]) members)
  end
with gostring_tree (g : gostring) : gen_tree leaf :=
  match g with
  | Text s => GenNode 7 [GenLeaf (inr s)]
  | Stamp t => GenNode 11 [GenLeaf (inl (inr t))]
  | B64 b => GenNode 8 [bytes_tree b]
  end
with bytes_tree (b : bytes) : gen_tree leaf :=
  match b with
  | Raw s => GenNode 9 [GenLeaf (inr s)]
  | Doc j => GenNode 10 [json_tree j]
  end.


Fixpoint tree_json (t : gen_tree leaf) : option json :=
  match t with
  | GenNode 0 [] => Some JNull
  | GenNode 1 [GenLeaf (inl (inl b))] => Some (JBool b)
  | GenNode 2 [GenLeaf (inl (inr n))] => Some (JNum n)
  | GenNode 3 [s] => JStr <$> tree_gostring s
  | GenNode 4 items => JArr <$> mapM tree_json items
  | GenNode 5 members =>
      JObj <$> mapM (fun m =>
                 match m with
                 | GenNode 6 [GenLeaf (inr k); v] => pair k <$> tree_json v
                 | _ => None
                 end) members
  | _ => None
  end
with tree_gostring (t : gen_tree leaf) : option gostring :=
  match t with
  | GenNode 7 [GenLeaf (inr s)] => Some (Text s)
  | GenNode 11 [GenLeaf (inl (inr t))] => Some (Stamp t)
  | GenNode 8 [b] => B64 <$> tree_bytes b
  | _ => None
  end
with tree_bytes (t : gen_tree leaf) : option bytes :=
  match t with
  | GenNode 9 [GenLeaf (inr s)] => Some (Raw s)
  | GenNode 10 [j] => Doc <$> tree_json j
  | _ => None
  end.

Fixpoint tree_json_tree (j : json) : tree_json (json_tree j) = Some j
with tree_gostring_tree (g : gostring) : tree_gostring (gostring_tree g) = Some g
with tree_bytes_tree (b : bytes) : tree_bytes (bytes_tree b) = Some b.
Proof.
  - destruct j as [| | |s|items|members]; simpl; try reflexivity.
    + by rewrite tree_gostring_tree.
    + assert (H : mapM tree_json (List.map json_tree items) = Some items).
      { induction items as [|i items IH]; [reflexivity|].
        simpl. rewrite tree_json_tree. simpl. by rewrite IH. }
      by rewrite H.
    + match goal with |- _ <$> ?m = _ => assert (H : m = Some members) end.
      { induction members as [|[k v] members IH]; [reflexivity|].
        simpl. rewrite tree_json_tree. simpl. by rewrite IH. }
      by rewrite H.
  - destruct g; simpl; [reflexivity..|]. by rewrite tree_bytes_tree.
  - destruct b; simpl; [reflexivity|]. by rewrite tree_json_tree.
Qed.

#[global] Instance json_eq_dec : EqDecision json.
Proof.
  intros x y. destruct (decide (json_tree x = json_tree y)) as [E|E].
  - left. apply (f_equal tree_json) in E. rewrite !tree_json_tree in E. congruence.
  - right. congruence.
Defined.

#[global] Instance gostring_eq_dec : EqDecision gostring.
Proof.
  intros x y. destruct (decide (gostring_tree x = gostring_tree y)) as [E|E].
  - left. apply (f_equal tree_gostring) in E. rewrite !tree_gostring_tree in E. congruence.
  - right. congruence.
Defined.

#[global] Instance gostring_countable : Countable gostring :=
  inj_countable gostring_tree tree_gostring tree_gostring_tree.

End Wire.

Export Wire.

(** ** Go values *)

Module Go.

Abbreviation addr := nat.

(** The types payloads are built from. A struct type lists its fields as
    [encoding/json] sees them: exported fields under their JSON keys. *)
#[warnings="-register-all"]
Inductive GoType : Type :=
  | TBool
  | TInt
  | TString
  | TStruct (fields : list (string * GoType))
  | TPtr (elem : GoType).

#[warnings="-register-all"]
Inductive GoValue : Type :=
  | VBool (b : bool)
  | VInt (n : Z)
  | VString (s : gostring)
  | VStruct (fields : list GoValue)     (* in the order of the type's fields *)
  | VPtr (p : option addr).             (* nil, or the address of a cell *)

(** An [interface{}] value: nil, a value with its dynamic type, or one of
    the containers [encoding/json] builds when it decodes into an empty
    interface ([float64], [[]interface{}], [map[string]interface{}]).
    A float64 here is always integral (documents hold integer literals) and
    a map is kept as its key-sorted association list. *)
#[warnings="-register-all"]
Inductive any : Type :=
  | ANil
  | AVal (t : GoType) (v : GoValue)
  | AFloat (f : Z)
  | ASlice (items : list any)
  | AMap (m : list (string * any)).

Abbreviation heap := (gmap addr GoValue).

(** The empty Go string: it decodes, as base64, to no bytes at all. *)
Definition empty_string : gostring := B64 (Raw "").

Fixpoint zero (t : GoType) : GoValue :=
  match t with
  | TBool => VBool false
  | TInt => VInt 0
  | TString => VString empty_string
  | TStruct fields => VStruct (List.map (fun f => zero (snd f)) fields)
  | TPtr _ => VPtr None
  end.

(** [new] in Go: a cell no one else holds. *)
Definition fresh_addr (h : heap) : addr := fresh (dom h).

Definition alloc (h : heap) (v : GoValue) : heap * addr :=
  let a := fresh_addr h in (<[a := v]> h, a).

(** *** float64, on integers *)

Definition min_int64 : Z := - 2 ^ 63.
Definition max_int64 : Z := 2 ^ 63 - 1.
Definition in_int64 (n : Z) : bool := (min_int64 <=? n) && (n <=? max_int64).

(** [strconv.ParseFloat(s, 64)] on an integer literal: the nearest float64,
    ties to even; [None] when the literal is out of float64's range. *)
Definition float64_of_Z (n : Z) : option Z :=
  let a := Z.abs n in
  if a <? 2 ^ 53 then Some n
  else
    let e := Z.log2 a - 52 in
    let q := Z.shiftr a e in
    let r := a - Z.shiftl q e in
    let half := Z.shiftl 1 (e - 1) in
    let q' := if (half <? r) || ((half =? r) && Z.odd q) then q + 1 else q in
    let m := Z.shiftl q' e in
    if 2 ^ 1024 <=? m then None else Some (Z.sgn n * m).

(** [n] cut to its [k] leading decimal digits, rounded down and up. *)
Definition digits (a : Z) : Z := Z.log2 a / 3 + 1.  (* an upper bound *)

Definition cut (a : Z) (p : Z) : Z * Z :=
  let u := 10 ^ p in
  let lo := (a / u) * u in
  (lo, if lo =? a then lo else lo + u).

(** [strconv.AppendFloat(b, f, 'f', -1, 64)] on an integral float64, read
    back as the integer it denotes: the shortest decimal that parses to [f],
    the closest one to [f] among those. Below 2^53 that is [f] itself. *)
Fixpoint shortest (fuel : nat) (a : Z) (p : Z) : Z :=
  match fuel with
  | O => a
  | S fuel =>
      let '(lo, hi) := cut a p in
      let ok x := bool_decide (float64_of_Z x = Some a) in
      match ok lo, ok hi with
      | true, true => if a - lo <=? hi - a then lo else hi
      | true, false => lo
      | false, true => hi
      | false, false => shortest fuel a (p - 1)
      end
  end.

Definition formatFloat (f : Z) : Z :=
  let a := Z.abs f in
  if a <=? 2 ^ 53 then f
  else Z.sgn f * shortest (Z.to_nat (digits a) + 1) a (digits a).

End Go.

Export Go.

(** ** Errors and results *)

Inductive error : Type :=
  | ErrJSON                                   (* any error of encoding/json *)
  | ErrBase64                                 (* base64.CorruptInputError *)
  | ErrSchemaExists (type : gostring) (version : Z)
  | ErrSchemaMissing (type : gostring) (version : Z)
  | ErrQueue (msg : string).                  (* an error of the SQS client *)

(** What a Go call comes to: a value, a returned error, or a run-time panic. *)
Inductive outcome (A : Type) : Type :=
  | Ok (a : A)
  | Fail (e : error)
  | Panic.
Arguments Ok {A} a.
Arguments Fail {A} e.
Arguments Panic {A}.

(** ** encoding/json *)

Module Json.

(** *** Marshal *)

(** A value under its static type; pointers are followed, nil is [null]. *)
Fixpoint marshal_value (h : heap) (t : GoType) (v : GoValue) : json :=
  match t, v with
  | TBool, VBool b => JBool b
  | TInt, VInt n => JNum n
  | TString, VString s => JStr s
  | TStruct fields, VStruct vs =>
      JObj ((fix go (fields : list (string * GoType)) (vs : list GoValue) :=
               match fields, vs with
               | (k, t) :: fields, v :: vs => (k, marshal_value h t v) :: go fields vs
               | _, _ => []
               end) fields vs)
  | TPtr elem, VPtr (Some a) =>
      match h !! a with
      | Some v => marshal_value h elem v
      | None => JNull
      end
  | _, _ => JNull
  end.

Fixpoint marshal_any (h : heap) (x : any) : json :=
  match x with
  | ANil => JNull
  | AVal t v => marshal_value h t v
  | AFloat f => JNum (formatFloat f)
  | ASlice items => JArr (List.map (marshal_any h) items)
  | AMap m => JObj (List.map (fun kv => (fst kv, marshal_any h (snd kv))) m)
  end.

(** [json.Marshal]. No value of this model makes it fail. *)
Definition Marshal (h : heap) (x : any) : outcome bytes := Ok (Doc (marshal_any h x)).


(** *** Unmarshal into an empty interface *)

(** Storing under a key of a [map[string]interface{}]; the association list
    stays sorted by key, the order [Marshal] writes a map in. *)
Fixpoint map_store (k : string) (x : any) (m : list (string * any)) : list (string * any) :=
  match m with
  | [] => [(k, x)]
  | (k', x') :: m' =>
      match String.compare k k' with
      | Lt => (k, x) :: m
      | Eq => (k, x) :: m'
      | Gt => (k', x') :: map_store k x m'
      end
  end.

(** [d.valueInterface]: what a document becomes in an [interface{}].
    [None] when a number is out of float64's range. *)
Fixpoint generic (j : json) : option any :=
  match j with
  | JNull => Some ANil
  | JBool b => Some (AVal TBool (VBool b))
  | JNum n => AFloat <$> float64_of_Z n
  | JStr s => Some (AVal TString (VString s))
  | JArr items =>
      ASlice <$> (fix go (items : list json) : option (list any) :=
                    match items with
                    | [] => Some []
                    | i :: items =>
                        x ← generic i; xs ← go items; Some (x :: xs)
                    end) items
  | JObj members =>
      AMap <$> (fix go (members : list (string * json)) (m : list (string * any)) :=
                  match members with
                  | [] => Some m
                  | (k, j) :: members => x ← generic j; go members (map_store k x m)
                  end) members []
  end.

(** *** Unmarshal into a typed value *)

Definition upper (c : ascii) : ascii :=
  let n := N_of_ascii c in
  if ((97 <=? n) && (n <=? 122))%N then ascii_of_N (n - 32) else c.

Fixpoint foldName (s : string) : string :=
  match s with
  | EmptyString => EmptyString
  | String c s => String (upper c) (foldName s)
  end.

(** The field a key selects: the one of that name, else the first one equal
    to it up to the case of ASCII letters. *)
Fixpoint field_where (p : string -> bool) (fields : list (string * GoType)) (i : nat)
    : option (nat * GoType) :=
  match fields with
  | [] => None
  | (k, t) :: fields => if p k then Some (i, t) else field_where p fields (S i)
  end.

Definition find_field (fields : list (string * GoType)) (key : string) : option (nat * GoType) :=
  match field_where (String.eqb key) fields 0 with
  | Some f => Some f
  | None => field_where (fun k => String.eqb (foldName k) (foldName key)) fields 0
  end.

(** The decoder's state: the heap, and whether an error has been saved
    ([d.saveError]: a value of the wrong kind is skipped, decoding goes on
    and [Unmarshal] returns the error at the end). *)
Definition dstate : Type := heap * bool.

Definition mismatch (v : GoValue) (s : dstate) : GoValue * dstate := (v, (s.1, true)).

(** [d.value] on a document [j] and a settable value [v] of type [t]. *)
Fixpoint decode (j : json) : GoType -> GoValue -> dstate -> GoValue * dstate :=
  fix at_type (t : GoType) (v : GoValue) (s : dstate) {struct t} : GoValue * dstate :=
    match t with
    | TPtr elem =>
        match j with
        | JNull => (VPtr None, s)
        | _ =>
            match v with
            | VPtr (Some a) =>
                let '(v', (h', e')) := at_type elem (default (zero elem) (s.1 !! a)) s in
                (VPtr (Some a), (<[a := v']> h', e'))
            | _ =>
                let '(h1, a) := alloc s.1 (zero elem) in
                let '(v', (h', e')) := at_type elem (zero elem) (h1, s.2) in
                (VPtr (Some a), (<[a := v']> h', e'))
            end
        end
    | TBool =>
        match j with
        | JNull => (v, s)
        | JBool b => (VBool b, s)
        | _ => mismatch v s
        end
    | TInt =>
        match j with
        | JNull => (v, s)
        | JNum n => if in_int64 n then (VInt n, s) else mismatch v s
        | _ => mismatch v s
        end
    | TString =>
        match j with
        | JNull => (v, s)
        | JStr x => (VString x, s)
        | _ => mismatch v s
        end
    | TStruct fields =>
        match j with
        | JNull => (v, s)
        | JObj members =>
            let vs := match v with VStruct vs => vs | _ => List.map (fun f => zero (snd f)) fields end in
            let '(vs', s') :=
              (fix go (members : list (string * json)) (vs : list GoValue) (s : dstate) :=
                 match members with
                 | [] => (vs, s)
                 | (k, jv) :: members =>
                     match find_field fields k with
                     | Some (i, ft) =>
                         let '(fv, s') := decode jv ft (default (zero ft) (vs !! i)) s in
                         go members (<[i := fv]> vs) s'
                     | None => go members vs s
                     end
                 end) members vs s in
            (VStruct vs', s')
        | _ => mismatch v s
        end
    end.


(** *** Unmarshal *)

(** [json.Unmarshal(data, &x)] for a variable [x] of type [interface{}].
    A non-nil pointer held by [x] is decoded through, in place; anything
    else held by [x] is replaced by the generic form of the document (so is
    a pointer to a non-pointer when the document is [null]). The result is
    the heap, the variable and the error returned. *)
Definition UnmarshalAny (h : heap) (data : bytes) (x : any) : heap * any * option error :=
  match data with
  | Raw _ => (h, x, Some ErrJSON)
  | Doc j =>
      let through elem a :=
        let '(v', (h', e)) := decode j elem (default (zero elem) (h !! a)) (h, false) in
        (<[a := v']> h', x, if e then Some ErrJSON else None) in
      let replace :=
        match generic j with
        | Some g => (h, g, None)
        | None => (h, x, Some ErrJSON)
        end in
      match x, j with
      | AVal (TPtr (TPtr elem)) (VPtr (Some a)), _ => through (TPtr elem) a
      | AVal (TPtr _) (VPtr (Some _)), JNull => replace
      | AVal (TPtr elem) (VPtr (Some a)), _ => through elem a
      | _, _ => replace
      end
  end.

(** [json.Unmarshal(data, p)] for a non-nil pointer [p] to a cell of type [t]. *)
Definition UnmarshalPtr (h : heap) (data : bytes) (t : GoType) (a : addr) : heap * option error :=
  match data with
  | Raw _ => (h, Some ErrJSON)
  | Doc j =>
      let '(v', (h', e)) := decode j t (default (zero t) (h !! a)) (h, false) in
      (<[a := v']> h', if e then Some ErrJSON else None)
  end.

End Json.

Export Json.

(** ** encoding/base64 *)

Definition EncodeToString (b : bytes) : gostring := B64 b.

Definition DecodeString (s : gostring) : outcome bytes :=
  match s with
  | B64 b => Ok b
  | Text _ | Stamp _ => Fail ErrBase64
  end.

(** ** notify.go: the data *)

(** The value a schema is registered with. Exemplars range over nil and the
    values of the types of [GoType]. *)
Inductive exemplar : Type :=
  | ENil
  | EVal (t : GoType) (v : GoValue).

Definition any_of (x : exemplar) : any :=
  match x with
  | ENil => ANil
  | EVal t v => AVal t v
  end.

Record Schema : Type := mkSchema {
  schema_Type : gostring;
  schema_Version : Z;
  schema_Schema : exemplar
}.

Record Notification : Type := mkNotification {
  Time : Z;
  Type_ : gostring;
  Version : Z;
  Data : any
}.

(** [Notification{}]; instants count from the zero [time.Time]. *)
Definition Notification_zero : Notification := mkNotification 0 empty_string 0 ANil.

(** [sqs.Message], as far as it is read: both fields are pointers. *)
Record Message : Type := mkMessage { Body : option bytes; ReceiptHandle : option string }.

(** The three methods of the [SQS] interface, over the state [Q] of an
    implementation. Each returns the new state and its result. *)
Class SQS (Q : Type) : Type := {
  DeleteMessage : Q -> string -> option string -> Q * option error;
  ReceiveMessage : Q -> string -> Q * (error + list Message);
  SendMessage : Q -> string -> bytes -> Q * option error
}.

(** A call made on the queue, with its arguments. *)
Inductive call : Type :=
  | CallDelete (queueUrl : string) (receiptHandle : option string)
  | CallReceive (queueUrl : string)
  | CallSend (queueUrl : string) (messageBody : bytes).

(** What lies outside the [Notifications] value: the queue behind [n.SQS],
    the calls made on it so far (oldest first), and the heap. *)
Record world (Q : Type) : Type := mkWorld { queue : Q; calls : list call; mem : heap }.
Arguments mkWorld {Q} queue calls mem.
Arguments queue {Q} w.
Arguments calls {Q} w.
Arguments mem {Q} w.

Definition set_mem {Q} (w : world Q) (h : heap) : world Q := mkWorld (queue w) (calls w) h.

(** The [Notifications] struct; [Schemas] is the map made by [New]. The
    channel [ch] of the earlier revision is modelled by what is sent on it. *)
Record Notifications : Type := mkNotifications {
  QueueURL : string;
  Rate : Z;
  Schemas : gmap gostring (gmap Z Schema)
}.

Definition second : Z := 1000000000.

Definition New (queue : string) : Notifications :=
  {| QueueURL := queue; Schemas := ∅; Rate := 1 * second |}.

(** [m[type][version]] with its [ok]: a missing inner map reads as empty. *)
Definition lookup_schema (m : gmap gostring (gmap Z Schema)) (type : gostring) (version : Z)
    : option Schema :=
  m !! type ≫= fun schemas => schemas !! version.

Definition AddSchema (n : Notifications) (schema : Schema) : Notifications * option error :=
  let type := schema_Type schema in
  let version := schema_Version schema in
  let store (m : gmap gostring (gmap Z Schema)) :=
    {| QueueURL := QueueURL n; Rate := Rate n;
       Schemas := <[type := <[version := schema]> (default ∅ (m !! type))]> m |} in
  match Schemas n !! type with
  | Some schemas =>
      match schemas !! version with
      | Some _ => (n, Some (ErrSchemaExists type version))
      | None => (store (Schemas n), None)
      end
  | None => (store (<[type := ∅]> (Schemas n)), None)
  end.

(** ** notify.go: the envelope *)

(** [json.Marshal(notification)]: the four tagged fields, in order. *)
Definition marshal_Notification (h : heap) (n : Notification) : json :=
  JObj [("time", JStr (Stamp (Time n)));
        ("type", JStr (Type_ n));
        ("version", JNum (Version n));
        ("notification", marshal_any h (Data n))].

Definition Notification_keys : list (string * GoType) :=
  [("time", TString); ("type", TString); ("version", TInt); ("notification", TString)].

(** One member of the envelope object stored into [n]; [None] on an error
    (whether [time.Time]'s own [UnmarshalJSON] rejects the value, which ends
    the decoding, or the value has the wrong kind, which is saved: either
    way [Unmarshal] returns an error). *)
Definition store_member (k : string) (j : json) (n : Notification) : option Notification :=
  match fst <$> find_field Notification_keys k with
  | Some 0%nat =>
      match j with
      | JNull => Some n
      | JStr (Stamp t) => Some (mkNotification t (Type_ n) (Version n) (Data n))
      | _ => None
      end
  | Some 1%nat =>
      match j with
      | JNull => Some n
      | JStr s => Some (mkNotification (Time n) s (Version n) (Data n))
      | _ => None
      end
  | Some 2%nat =>
      match j with
      | JNull => Some n
      | JNum v => if in_int64 v then Some (mkNotification (Time n) (Type_ n) v (Data n)) else None
      | _ => None
      end
  | Some _ =>
      x ← generic j; Some (mkNotification (Time n) (Type_ n) (Version n) x)
  | None => Some n
  end.

Fixpoint store_members (members : list (string * json)) (n : Notification) : option Notification :=
  match members with
  | [] => Some n
  | (k, j) :: members =>
      match store_member k j n with
      | Some n' =>
          match store_members members n' with
          | Some n'' => Some n''
          | None => None
          end
      | None => None
      end
  end.

(** [json.Unmarshal(data, &notification)]. *)
Definition UnmarshalNotification (data : bytes) (n : Notification) : outcome Notification :=
  match data with
  | Raw _ => Fail ErrJSON
  | Doc JNull => Ok n
  | Doc (JObj members) =>
      match store_members members n with
      | Some n' => Ok n'
      | None => Fail ErrJSON
      end
  | Doc _ => Fail ErrJSON
  end.

(** ** notify.go: the operations *)

Section Operations.
Context {Q : Type} `{!SQS Q}.

(** The three calls on [n.SQS], each entered in the log. *)
Definition sqs_delete (w : world Q) (url : string) (rh : option string) : world Q * option error :=
  let '(q, e) := DeleteMessage (queue w) url rh in
  (mkWorld q (calls w ++ [CallDelete url rh]) (mem w), e).

Definition sqs_receive (w : world Q) (url : string) : world Q * (error + list Message) :=
  let '(q, r) := ReceiveMessage (queue w) url in
  (mkWorld q (calls w ++ [CallReceive url]) (mem w), r).

Definition sqs_send (w : world Q) (url : string) (body : bytes) : world Q * option error :=
  let '(q, e) := SendMessage (queue w) url body in
  (mkWorld q (calls w ++ [CallSend url body]) (mem w), e).

(** Lines 125-147 of [handle]: from the body of a message to the
    notification with its typed data, before anything is deleted. *)
Definition decode_message (n : Notifications) (h : heap) (message : Message)
    : heap * outcome Notification :=
  match Body message with
  | None => (h, Panic)                                   (* *message.Body *)
  | Some body =>
      match UnmarshalNotification body Notification_zero with
      | Panic => (h, Panic)
      | Fail e => (h, Fail e)
      | Ok notification =>
          match lookup_schema (Schemas n) (Type_ notification) (Version notification) with
          | None => (h, Fail (ErrSchemaMissing (Type_ notification) (Version notification)))
          | Some schema =>
              match Data notification with
              | AVal TString (VString s) =>
                  match DecodeString s with
                  | Panic => (h, Panic)
                  | Fail e => (h, Fail e)
                  | Ok data =>
                      match schema_Schema schema with
                      | ENil => (h, Panic)               (* reflect.New(nil) *)
                      | EVal t _ =>
                          let '(h1, a) := alloc h (zero t) in
                          match UnmarshalPtr h1 data t a with
                          | (h2, Some e) => (h2, Fail e)
                          | (h2, None) =>
                              (h2, Ok (mkNotification (Time notification) (Type_ notification)
                                         (Version notification) (AVal (TPtr t) (VPtr (Some a)))))
                          end
                      end
                  end
              | _ => (h, Panic)                          (* notification.Data.(string) *)
              end
          end
      end
  end.

(** [handle], synchronous revision. *)
Definition handle (n : Notifications) (w : world Q) (notifications : list Message)
    : world Q * outcome Notification :=
  match notifications with
  | [] => (w, Panic)                                     (* Messages[0] *)
  | message :: _ =>
      match decode_message n (mem w) message with
      | (h, Ok notification) =>
          match sqs_delete (set_mem w h) (QueueURL n) (ReceiptHandle message) with
          | (w', Some e) => (w', Fail e)
          | (w', None) => (w', Ok notification)
          end
      | (h, Fail e) => (set_mem w h, Fail e)
      | (h, Panic) => (set_mem w h, Panic)
      end
  end.

(** [receive], synchronous revision: poll until a batch is not empty or
    the queue fails. [fuel] bounds the number of polls; [None] when it
    runs out with the queue still empty. *)
Fixpoint receive (fuel : nat) (n : Notifications) (w : world Q)
    : option (world Q * outcome Notification) :=
  match fuel with
  | O => None
  | S fuel =>
      match sqs_receive w (QueueURL n) with
      | (w', inl err) => Some (w', Fail err)
      | (w', inr []) => receive fuel n w'
      | (w', inr notifications) => Some (handle n w' notifications)
      end
  end.


(** [Send]; [now] is what [time.Now()] returns. *)
Definition Send (now : Z) (n : Notifications) (w : world Q) (notification : Notification)
    : world Q * outcome unit :=
  match lookup_schema (Schemas n) (Type_ notification) (Version notification) with
  | None => (w, Fail (ErrSchemaMissing (Type_ notification) (Version notification)))
  | Some schema =>
      match Marshal (mem w) (Data notification) with
      | Panic => (w, Panic)
      | Fail e => (w, Fail e)
      | Ok nd =>
          match UnmarshalAny (mem w) nd (any_of (schema_Schema schema)) with
          | (h, _, Some e) => (set_mem w h, Fail e)
          | (h, sc, None) =>
              match Marshal h sc with
              | Panic => (set_mem w h, Panic)
              | Fail e => (set_mem w h, Fail e)
              | Ok scj =>
                  let body := Doc (marshal_Notification h
                                     (mkNotification now (Type_ notification)
                                        (Version notification)
                                        (AVal TString (VString (EncodeToString scj))))) in
                  match sqs_send (set_mem w h) (QueueURL n) body with
                  | (w', Some e) => (w', Fail e)
                  | (w', None) => (w', Ok tt)
                  end
              end
          end
      end
  end.

(** [handle], channel revision: every message of the batch is handled in
    turn and what is written on [n.ch] is collected, oldest first. A panic
    ends the goroutine; it is the last entry then. *)
Fixpoint handle_ch (n : Notifications) (w : world Q) (messages : list Message)
    : world Q * list (outcome Notification) :=
  match messages with
  | [] => (w, [])
  | message :: messages =>
      let continue (w' : world Q) (x : outcome Notification) :=
        let '(w'', xs) := handle_ch n w' messages in (w'', x :: xs) in
      match Body message with
      | None => (w, [Panic])
      | Some body =>
          match UnmarshalNotification body Notification_zero with
          | Panic => (w, [Panic])
          | Fail e => continue w (Fail e)
          | Ok notification =>
              match lookup_schema (Schemas n) (Type_ notification) (Version notification) with
              | None =>
                  continue w (Fail (ErrSchemaMissing (Type_ notification) (Version notification)))
              | Some schema =>
                  match Data notification with
                  | AVal TString (VString s) =>
                      match DecodeString s with
                      | Panic => (w, [Panic])
                      | Fail e => continue w (Fail e)
                      | Ok data =>
                          match schema_Schema schema with
                          | ENil => (w, [Panic])
                          | EVal t _ =>
                              let '(h1, a) := alloc (mem w) (zero t) in
                              match UnmarshalPtr h1 data t a with
                              | (h2, Some e) => continue (set_mem w h2) (Fail e)
                              | (h2, None) =>
                                  let re := AVal (TPtr t) (VPtr (Some a)) in
                                  match sqs_delete (set_mem w h2) (QueueURL n)
                                          (ReceiptHandle message) with
                                  | (w', Some e) => continue w' (Fail e)
                                  | (w', None) =>
                                      continue w'
                                        (Ok (mkNotification (Time notification)
                                               (Type_ notification) (Version notification) re))
                                  end
                              end
                          end
                      end
                  | _ => (w, [Panic])
                  end
              end
          end
      end
  end.

End Operations.

(** ** The operations, as steps of one facade *)


Section Steps.
Context {Q : Type} `{!SQS Q}.



End Steps.

(** ** A queue to run the operations on *)

(** An in-memory queue with switches that make a method fail. Messages are
    received in the order they were sent, all at once, and stay on the
    queue until they are deleted. *)
Record memq : Type := mkMemq {
  pending : list Message;
  sent : nat;
  delete_error : option error;
  receive_error : option error;
  send_error : option error
}.

Definition handle_of (i : nat) : string := String.concat "" (repeat "h" (S i)).

Definition same_handle (rh : option string) (m : Message) : bool :=
  bool_decide (ReceiptHandle m = rh).

#[global] Instance memq_SQS : SQS memq := {
  DeleteMessage q _ rh :=
    match delete_error q with
    | Some e => (q, Some e)
    | None =>
        (mkMemq (List.filter (fun m => negb (same_handle rh m)) (pending q)) (sent q)
           (delete_error q) (receive_error q) (send_error q), None)
    end;
  ReceiveMessage q _ :=
    match receive_error q with
    | Some e => (q, inl e)
    | None => (q, inr (pending q))
    end;
  SendMessage q _ body :=
    match send_error q with
    | Some e => (q, Some e)
    | None =>
        (mkMemq (pending q ++ [mkMessage (Some body) (Some (handle_of (sent q)))]) (S (sent q))
           (delete_error q) (receive_error q) (send_error q), None)
    end
}.

Definition memq_empty : memq := mkMemq [] 0 None None None.
Definition world_empty : world memq := mkWorld memq_empty [] ∅.

(** The data of [notify_test.go]. *)
Definition TestData : GoType := TStruct [("String", TString); ("Int", TInt); ("Bool", TBool)].

Definition testData (s : gostring) (i : Z) (b : bool) : GoValue :=
  VStruct [VString s; VInt i; VBool b].

Definition testing : gostring := Text "testing".

Definition testSchema : Schema := mkSchema testing 1 (EVal TestData (zero TestData)).

Definition testNotification : Notification :=
  mkNotification 0 testing 1 (AVal TestData (testData (Text "string") 1 true)).

(** ** What the properties are stated with *)

(** The four ways the decoding of a message fails with an error, step by
    step as [handle] goes through them. *)
Inductive decode_failure (n : Notifications) (h : heap) (message : Message)
    : heap -> error -> Prop :=
  | malformed_envelope body e :
      Body message = Some body ->
      UnmarshalNotification body Notification_zero = Fail e ->
      decode_failure n h message h e
  | unresolved_schema body x :
      Body message = Some body ->
      UnmarshalNotification body Notification_zero = Ok x ->
      lookup_schema (Schemas n) (Type_ x) (Version x) = None ->
      decode_failure n h message h (ErrSchemaMissing (Type_ x) (Version x))
  | invalid_base64 body x schema s e :
      Body message = Some body ->
      UnmarshalNotification body Notification_zero = Ok x ->
      lookup_schema (Schemas n) (Type_ x) (Version x) = Some schema ->
      Data x = AVal TString (VString s) ->
      DecodeString s = Fail e ->
      decode_failure n h message h e
  | shape_mismatch body x schema s data t v h' e :
      Body message = Some body ->
      UnmarshalNotification body Notification_zero = Ok x ->
      lookup_schema (Schemas n) (Type_ x) (Version x) = Some schema ->
      Data x = AVal TString (VString s) ->
      DecodeString s = Ok data ->
      schema_Schema schema = EVal t v ->
      UnmarshalPtr (alloc h (zero t)).1 data t (alloc h (zero t)).2 = (h', Some e) ->
      decode_failure n h message h' e.

(** Message bodies and facades the properties are run on. *)
Definition envelope (type : gostring) (version : Z) (payload : json) : bytes :=
  Doc (JObj [("time", JStr (Stamp 7)); ("type", JStr type); ("version", JNum version);
             ("notification", payload)]).

Definition payload_ok : json :=
  JStr (B64 (Doc (JObj [("String", JStr (Text "string")); ("Int", JNum 1); ("Bool", JBool true)]))).

Definition testFacade : Notifications := (AddSchema (New "test-queue") testSchema).1.

Definition message_v1 : Message := mkMessage (Some (envelope testing 1 payload_ok)) (Some "h").
Definition message_v2 : Message := mkMessage (Some (envelope testing 2 payload_ok)) (Some "hh").

Definition message_number_payload : Message :=
  mkMessage (Some (envelope testing 1 (JNum 5))) (Some "h").

(** The inner payload of the one message [Send] has put on the queue. *)
Definition transmitted (w : world memq) : option json :=
  match calls w with
  | [CallSend _ (Doc (JObj [_; _; _; (_, JStr (B64 (Doc payload)))]))] => Some payload
  | _ => None
  end.

Definition TestDataExtra : GoType :=
  TStruct [("String", TString); ("Int", TInt); ("Bool", TBool); ("Extra", TString)].

Definition extraNotification : Notification :=
  mkNotification 0 testing 1
    (AVal TestDataExtra (VStruct [VString (Text "string"); VInt 1; VBool true;
                                  VString (Text "more")])).

Definition bigNotification : Notification :=
  mkNotification 0 testing 1 (AVal TestData (testData (Text "string") (2 ^ 53 + 1) true)).





Fixpoint decode_members (fields : list (string * GoType)) (members : list (string * json))
    (vs : list GoValue) (s : dstate) : list GoValue * dstate :=
  match members with
  | [] => (vs, s)
  | (k, jv) :: members =>
      match find_field fields k with
      | Some (i, ft) =>
          let '(fv, s') := decode jv ft (default (zero ft) (vs !! i)) s in
          decode_members fields members (<[i := fv]> vs) s'
      | None => decode_members fields members vs s
      end
  end.




(** ** buffer.go *)

Module Buf.

(** A byte is a number below 256; a [Buffer], like a [[]byte], is a list. *)
Abbreviation Buffer := (list Z).

(** The one error [Read] returns. *)
Inductive ioerr : Type := EOF.

(** The builtin [copy(dst, src)]: elements are copied until either slice
    ends. The result is [dst] afterwards and the number copied. *)
Fixpoint copy (dst src : list Z) : list Z * nat :=
  match dst, src with
  | _ :: dst', s :: src' => let '(d, k) := copy dst' src' in (s :: d, S k)
  | _, _ => (dst, 0%nat)
  end.

(** [Read] on a [Buffer]: what [p] holds afterwards, the count and the error.
    The buffer itself is not assigned to. *)
Definition Read (b : Buffer) (p : list Z) : list Z * nat * option ioerr :=
  let p' := (copy p b).1 in
  if (length p <? length b)%nat
  then (p', length p, Some EOF)
  else (p', length b, Some EOF).

(** [Write] on a [Buffer]: the buffer afterwards, the count and the error. *)
Definition Write (b : Buffer) (p : list Z) : Buffer * nat * option ioerr :=
  (b ++ p, 0%nat, None).

(** A run of [Write]s, one per chunk. *)
Definition WriteAll (b : Buffer) (chunks : list (list Z)) : Buffer :=
  foldl (fun b p => (Write b p).1.1) b chunks.

End Buf.

(** ** More to state properties with *)



(** An exemplar [json.Unmarshal(nd, &sc)] does not decode through: anything
    but a non-nil pointer. *)
Definition by_value (x : exemplar) : bool :=
  match x with
  | EVal (TPtr _) (VPtr (Some _)) => false
  | _ => true
  end.

(** The body [Send] builds once the payload has become [sc]. *)
Definition envelope_of (h : heap) (now : Z) (x : Notification) (sc : any) : bytes :=
  Doc (marshal_Notification h
         (mkNotification now (Type_ x) (Version x)
            (AVal TString (VString (EncodeToString (Doc (marshal_any h sc))))))).

(** The calls of a log that are [DeleteMessage]s. *)
Definition is_delete (c : call) : bool :=
  match c with
  | CallDelete _ _ => true
  | _ => false
  end.

Definition is_ok {A} (r : outcome A) : bool :=
  match r with
  | Ok _ => true
  | _ => false
  end.

Definition is_panic {A} (r : outcome A) : bool :=
  match r with
  | Panic => true
  | _ => false
  end.

(** No pointer inside [v] (not looking through the heap) is in [D]. *)
Fixpoint ptrs_outside (D : gset addr) (v : GoValue) : Prop :=
  match v with
  | VPtr (Some a) => a ∉ D
  | VStruct vs =>
      (fix go (vs : list GoValue) : Prop :=
         match vs with
         | [] => True
         | v :: vs => ptrs_outside D v /\ go vs
         end) vs
  | _ => True
  end.

(** The cells of [h] that are not in [D] hold no pointer into [D]. *)
Definition heap_outside (D : gset addr) (h : heap) : Prop :=
  forall a v, h !! a = Some v -> a ∉ D -> ptrs_outside D v.

(** What decoding may do to a heap [h] when nothing it starts from points
    into [D]: the cells of [D] stay as they are, no cell goes away, and
    still nothing outside [D] points into it. *)
Definition keeps (D : gset addr) (h : heap) (r : GoValue * dstate) : Prop :=
  (forall a, a ∈ D -> r.2.1 !! a = h !! a) /\
  dom h ⊆ dom r.2.1 /\
  heap_outside D r.2.1 /\
  ptrs_outside D r.1.

Definition decode_keeps (D : gset addr) (j : json) (t : GoType) : Prop :=
  forall (u : GoValue) (h : heap) (e : bool),
    D ⊆ dom h -> heap_outside D h -> ptrs_outside D u -> keeps D h (decode j t u (h, e)).

(** * Properties *)

(** ** The registry *)

Lemma lookup_schema_AddSchema_ok (n : Notifications) (d : Schema) :
  (AddSchema n d).2 = None ->
  lookup_schema (Schemas (AddSchema n d).1) (schema_Type d) (schema_Version d) = Some d.
Proof.
  unfold AddSchema, lookup_schema.
  destruct (Schemas n !! schema_Type d) as [schemas|] eqn:Ht; simpl.
  - destruct (schemas !! schema_Version d) eqn:Hv; simpl; [discriminate|].
    intros _. rewrite lookup_insert_eq. simpl. by rewrite lookup_insert_eq.
  - intros _. rewrite lookup_insert_eq. simpl. by rewrite lookup_insert_eq.
Qed.

Lemma AddSchema_error (n : Notifications) (d : Schema) (e : error) :
  (AddSchema n d).2 = Some e ->
  (AddSchema n d).1 = n /\
  e = ErrSchemaExists (schema_Type d) (schema_Version d) /\
  is_Some (lookup_schema (Schemas n) (schema_Type d) (schema_Version d)).
Proof.
  unfold AddSchema, lookup_schema.
  destruct (Schemas n !! schema_Type d) as [schemas|] eqn:Ht; simpl; [|discriminate].
  destruct (schemas !! schema_Version d) eqn:Hv; simpl; [|discriminate].
  intros [= <-]. eauto.
Qed.

Lemma AddSchema_present (n : Notifications) (d : Schema) :
  is_Some (lookup_schema (Schemas n) (schema_Type d) (schema_Version d)) ->
  AddSchema n d = (n, Some (ErrSchemaExists (schema_Type d) (schema_Version d))).
Proof.
  unfold AddSchema, lookup_schema. intros [x Hx].
  destruct (Schemas n !! schema_Type d) as [schemas|]; simpl in *; [|discriminate].
  by rewrite Hx.
Qed.

Lemma AddSchema_absent (n : Notifications) (d : Schema) :
  lookup_schema (Schemas n) (schema_Type d) (schema_Version d) = None ->
  (AddSchema n d).2 = None.
Proof.
  unfold AddSchema, lookup_schema.
  destruct (Schemas n !! schema_Type d) as [schemas|]; simpl; [|done].
  by intros ->.
Qed.

(** Registering never touches another key: what was registered stays, and
    nothing but the new key appears. *)
Lemma lookup_schema_AddSchema_other (n : Notifications) (d : Schema) (type : gostring) (version : Z) :
  (type, version) ≠ (schema_Type d, schema_Version d) ->
  lookup_schema (Schemas (AddSchema n d).1) type version = lookup_schema (Schemas n) type version.
Proof.
  intros Hne. unfold AddSchema, lookup_schema.
  destruct (Schemas n !! schema_Type d) as [schemas|] eqn:Ht; simpl.
  - destruct (schemas !! schema_Version d) eqn:Hv; simpl; [done|].
    destruct (decide (type = schema_Type d)) as [->|Hty].
    + rewrite lookup_insert_eq, Ht. simpl.
      rewrite lookup_insert_ne; [done|congruence].
    + by rewrite lookup_insert_ne.
  - destruct (decide (type = schema_Type d)) as [->|Hty].
    + rewrite !lookup_insert_eq, Ht. simpl.
      rewrite lookup_insert_ne; [done|congruence].
    + by rewrite !lookup_insert_ne.
Qed.

(** C8. Registering a descriptor a second time fails with the
    schema-already-exists error and leaves the [Notifications] value as it
    was; a descriptor of the same type under another version, one not
    registered before, is accepted and can be looked up afterwards. *)
Theorem AddSchema_twice (n : Notifications) (d : Schema) :
  let n1 := (AddSchema n d).1 in
  AddSchema n1 d = (n1, Some (ErrSchemaExists (schema_Type d) (schema_Version d))) /\
  forall d' : Schema,
    schema_Type d' = schema_Type d ->
    schema_Version d' ≠ schema_Version d ->
    lookup_schema (Schemas n) (schema_Type d') (schema_Version d') = None ->
    (AddSchema n1 d').2 = None /\
    lookup_schema (Schemas (AddSchema n1 d').1) (schema_Type d') (schema_Version d') = Some d' /\
    lookup_schema (Schemas (AddSchema n1 d').1) (schema_Type d) (schema_Version d)
      = lookup_schema (Schemas n1) (schema_Type d) (schema_Version d).
Proof.
  intros n1. split.
  - apply AddSchema_present. subst n1.
    destruct (AddSchema n d).2 as [e|] eqn:He.
    + destruct (AddSchema_error _ _ _ He) as (-> & _ & ?). done.
    + rewrite lookup_schema_AddSchema_ok; eauto.
  - intros d' Hty Hver Hnew.
    assert (Habs : lookup_schema (Schemas n1) (schema_Type d') (schema_Version d') = None).
    { subst n1. rewrite lookup_schema_AddSchema_other; [done|congruence]. }
    split; [by apply AddSchema_absent|]. split.
    + apply lookup_schema_AddSchema_ok. by apply AddSchema_absent.
    + apply lookup_schema_AddSchema_other. congruence.
Qed.

Lemma AddSchema_twice_witness :
  let n1 := (AddSchema (New "test-queue") testSchema).1 in
  let d' := mkSchema testing 2 (EVal TestData (zero TestData)) in
  AddSchema n1 testSchema = (n1, Some (ErrSchemaExists testing 1)) /\
  (AddSchema n1 d').2 = None /\
  lookup_schema (Schemas (AddSchema n1 d').1) testing 2 = Some d'.
Proof.
  pose proof (AddSchema_twice (New "test-queue") testSchema) as [H1 H2].
  split; [exact H1|].
  destruct (H2 (mkSchema testing 2 (EVal TestData (zero TestData)))) as (Ha & Hb & _).
  - reflexivity.
  - simpl. lia.
  - reflexivity.
  - split; [exact Ha | exact Hb].
Defined.



(** ** Send *)

(** C7. With no schema registered for the notification's type and version,
    [Send] returns the schema-does-not-exist error and makes no call on the
    queue (the world is left as it was); so does every [Send] on a facade
    fresh from [New]. *)
Theorem Send_without_schema {Q : Type} `{!SQS Q} (now : Z) (n : Notifications) (w : world Q)
    (x : Notification) :
  (lookup_schema (Schemas n) (Type_ x) (Version x) = None ->
   Send now n w x = (w, Fail (ErrSchemaMissing (Type_ x) (Version x)))) /\
  Send now (New (QueueURL n)) w x = (w, Fail (ErrSchemaMissing (Type_ x) (Version x))).
Proof.
  split.
  - intros Hno. unfold Send. by rewrite Hno.
  - reflexivity.
Qed.

Lemma Send_without_schema_witness :
  let n := (AddSchema (New "test-queue") testSchema).1 in
  let x := mkNotification 0 testing 2 (AVal TestData (testData (Text "string") 1 true)) in
  Send 42 n world_empty x = (world_empty, Fail (ErrSchemaMissing testing 2)).
Proof.
  intros n x.
  exact (proj1 (Send_without_schema 42 n world_empty x) eq_refl).
Defined.

(** ** handle *)

Lemma decode_failure_decode_message (n : Notifications) (h h' : heap) (message : Message)
    (e : error) :
  decode_failure n h message h' e <-> decode_message n h message = (h', Fail e).
Proof.
  unfold decode_message. split.
  - intros [body e' Hb Hu|body x Hb Hu Hl|body x schema s e' Hb Hu Hl Hd Hs
            |body x schema s data t v h2 e' Hb Hu Hl Hd Hs Hx Hp].
    + by rewrite Hb, Hu.
    + by rewrite Hb, Hu, Hl.
    + by rewrite Hb, Hu, Hl, Hd, Hs.
    + rewrite Hb, Hu, Hl, Hd, Hs, Hx.
      destruct (alloc h (zero t)) as [h1 a]. simpl in Hp. by rewrite Hp.
  - destruct (Body message) as [body|] eqn:Hb; [|discriminate].
    destruct (UnmarshalNotification body Notification_zero) as [x|e'|] eqn:Hu;
      [| intros [= <- <-]; by eapply malformed_envelope | discriminate].
    destruct (lookup_schema (Schemas n) (Type_ x) (Version x)) as [schema|] eqn:Hl;
      [| intros [= <- <-]; by eapply unresolved_schema].
    destruct (Data x) as [|t v| | |] eqn:Hd; try discriminate.
    destruct t; try discriminate. destruct v as [| |s| |]; try discriminate.
    destruct (DecodeString s) as [data|e'|] eqn:Hs;
      [| intros [= <- <-]; by eapply invalid_base64 | discriminate].
    destruct (schema_Schema schema) as [|t v] eqn:Hx; [discriminate|].
    destruct (alloc h (zero t)) as [h1 a] eqn:Ha.
    destruct (UnmarshalPtr h1 data t a) as [h2 [e'|]] eqn:Hp; [|discriminate].
    intros [= <- <-]. eapply shape_mismatch; eauto. by rewrite Ha.
Qed.

(** C5. When the decoding of the received message fails at any of its
    steps (malformed envelope, no schema for the type and version, invalid
    base64, payload not of the exemplar's shape), [handle] returns that
    error, and the queue and the log of calls on it are as before: no
    [DeleteMessage] is made. *)
Theorem handle_decode_failure {Q : Type} `{!SQS Q} (n : Notifications) (w : world Q)
    (message : Message) (rest : list Message) (h' : heap) (e : error) :
  decode_failure n (mem w) message h' e ->
  (handle n w (message :: rest)).2 = Fail e /\
  calls (handle n w (message :: rest)).1 = calls w /\
  queue (handle n w (message :: rest)).1 = queue w.
Proof.
  intros Hf. apply decode_failure_decode_message in Hf.
  unfold handle. rewrite Hf. done.
Qed.

(** C6. When the message decodes and [DeleteMessage] then fails, [handle]
    returns the error of the deletion, not the notification; the deletion
    is the one call made. *)
Theorem handle_delete_failure {Q : Type} `{!SQS Q} (n : Notifications) (w : world Q)
    (message : Message) (rest : list Message) (h' : heap) (x : Notification) (e : error) :
  decode_message n (mem w) message = (h', Ok x) ->
  (DeleteMessage (queue w) (QueueURL n) (ReceiptHandle message)).2 = Some e ->
  (handle n w (message :: rest)).2 = Fail e /\
  calls (handle n w (message :: rest)).1
    = calls w ++ [CallDelete (QueueURL n) (ReceiptHandle message)].
Proof.
  intros Hd He. unfold handle, sqs_delete. rewrite Hd. simpl.
  destruct (DeleteMessage (queue w) (QueueURL n) (ReceiptHandle message)) as [q o].
  simpl in He. subst o. done.
Qed.


(** C10. On a batch of one message the channel revision of [handle] writes
    exactly one value on [n.ch], the result the synchronous revision
    returns, and leaves the same world. *)
Theorem handle_ch_single {Q : Type} `{!SQS Q} (n : Notifications) (w : world Q)
    (message : Message) :
  handle_ch n w [message] = ((handle n w [message]).1, [(handle n w [message]).2]).
Proof.
  unfold handle, decode_message. destruct w as [q cs h]. simpl.
  destruct (Body message) as [body|]; [|done].
  destruct (UnmarshalNotification body Notification_zero) as [x|e|]; [|done..].
  destruct (lookup_schema (Schemas n) (Type_ x) (Version x)) as [schema|]; [|done].
  destruct (Data x) as [|t v| | |]; try done.
  destruct t; try done. destruct v as [| |s| |]; try done.
  destruct (DecodeString s) as [data|e|]; [|done..].
  destruct (schema_Schema schema) as [|t v]; [done|].
  unfold alloc.
  destruct (UnmarshalPtr _ data t _) as [h2 [e|]]; [done|].
  unfold sqs_delete, set_mem. simpl.
  by destruct (DeleteMessage q (QueueURL n) (ReceiptHandle message)) as [q' [e|]].
Qed.

(** *** The handle theorems on the in-memory queue *)


Lemma handle_decode_failure_witness :
  (handle testFacade world_empty [message_v2]).2 = Fail (ErrSchemaMissing testing 2) /\
  calls (handle testFacade world_empty [message_v2]).1 = [].
Proof.
  assert (Hf : decode_failure testFacade (mem world_empty) message_v2 ∅
                 (ErrSchemaMissing testing 2)).
  { eapply (unresolved_schema testFacade ∅ message_v2 (envelope testing 2 payload_ok)
              (mkNotification 7 testing 2 (AVal TString (VString
                 (B64 (Doc (JObj [("String", JStr (Text "string")); ("Int", JNum 1);
                                  ("Bool", JBool true)]))))))); reflexivity. }
  destruct (handle_decode_failure testFacade world_empty message_v2 [] ∅ _ Hf) as (H1 & H2 & _).
  split; [exact H1 | exact H2].
Defined.

Lemma handle_delete_failure_witness :
  let w := mkWorld (mkMemq [message_v1] 1 (Some (ErrQueue "AccessDenied")) None None) [] ∅ in
  (handle testFacade w [message_v1]).2 = Fail (ErrQueue "AccessDenied") /\
  calls (handle testFacade w [message_v1]).1 = [CallDelete "test-queue" (Some "h")].
Proof.
  intros w.
  exact (handle_delete_failure testFacade w message_v1 [] _ _ (ErrQueue "AccessDenied")
           eq_refl eq_refl).
Defined.

(** The channel revision, for comparison, handles the whole batch: two
    messages give two values on the channel and two deletions. *)
Example handle_ch_whole_batch :
  let w := mkWorld (mkMemq [message_v1; message_v1] 2 None None None) [] ∅ in
  length (handle_ch testFacade w [message_v1; message_v1]).2 = 2%nat /\
  calls (handle_ch testFacade w [message_v1; message_v1]).1
    = [CallDelete "test-queue" (Some "h"); CallDelete "test-queue" (Some "h")].
Proof. vm_compute. done. Qed.

(** ** Where the code departs from its description *)

(** *** A payload field that is not a string *)

(** [notification.Data.(string)] is a type assertion without the [ok]
    form: whenever the envelope decodes, its schema is registered and the
    ["notification"] member is anything but a string, [handle] panics. *)
Lemma handle_type_assertion_panics {Q : Type} `{!SQS Q} (n : Notifications) (w : world Q)
    (body : bytes) (rh : option string) (rest : list Message) (x : Notification)
    (schema : Schema) :
  UnmarshalNotification body Notification_zero = Ok x ->
  lookup_schema (Schemas n) (Type_ x) (Version x) = Some schema ->
  (forall s, Data x ≠ AVal TString (VString s)) ->
  handle n w (mkMessage (Some body) rh :: rest) = (w, Panic).
Proof.
  intros Hu Hl Hd. unfold handle, decode_message. simpl. rewrite Hu, Hl.
  destruct w as [q cs h]. simpl.
  destruct (Data x) as [|t v| | |]; try done.
  destruct t; try done. destruct v as [| |s| |]; try done.
  by destruct (Hd s).
Qed.

(** C3, at a failing input. The body
    [{"time":…,"type":"testing","version":1,"notification":5}] is a valid
    envelope for a registered schema; [handle] panics on it instead of
    returning an error. *)
Theorem handle_panics_on_number_payload :
  handle testFacade world_empty [message_number_payload] = (world_empty, Panic) /\
  handle_ch testFacade world_empty [message_number_payload] = (world_empty, [Panic]).
Proof. split; reflexivity. Qed.

(** So does a body without the member, and a schema registered with a nil
    exemplar ([reflect.New] of a nil type). *)
Example handle_panics_on_missing_payload :
  handle testFacade world_empty
    [mkMessage (Some (Doc (JObj [("type", JStr testing); ("version", JNum 1)]))) (Some "h")]
  = (world_empty, Panic).
Proof. reflexivity. Qed.

Example handle_panics_on_nil_exemplar :
  handle (AddSchema (New "test-queue") (mkSchema testing 1 ENil)).1 world_empty [message_v1]
  = (world_empty, Panic).
Proof. reflexivity. Qed.

(** *** What Send transmits *)

(** C2, at a failing input. The exemplar is the struct value [TestData{}]
    of the tests; [json.Unmarshal(nd, &sc)] then replaces [sc] by a
    [map[string]interface{}] and nothing is dropped: the field ["Extra"],
    unknown to the exemplar, is transmitted. *)
Theorem Send_transmits_unknown_field :
  (Send 42 testFacade world_empty extraNotification).2 = Ok tt /\
  transmitted (Send 42 testFacade world_empty extraNotification).1
  = Some (JObj [("Bool", JBool true); ("Extra", JStr (Text "more")); ("Int", JNum 1);
                ("String", JStr (Text "string"))]).
Proof. split; reflexivity. Qed.

(** A payload of another kind altogether is sent as it is, with no error
    at send time. *)
Example Send_transmits_any_shape :
  let x := mkNotification 0 testing 1 (AVal TString (VString (Text "not a TestData"))) in
  (Send 42 testFacade world_empty x).2 = Ok tt /\
  transmitted (Send 42 testFacade world_empty x).1 = Some (JStr (Text "not a TestData")).
Proof. split; reflexivity. Qed.

(** With a pointer exemplar, [&TestData{}], the same lines do decode into
    the exemplar's struct, and the unknown field is dropped. *)
Example Send_pointer_exemplar_normalizes :
  let n := (AddSchema (New "test-queue")
              (mkSchema testing 1 (EVal (TPtr TestData) (VPtr (Some 0%nat))))).1 in
  let w := mkWorld memq_empty [] {[ 0%nat := zero TestData ]} in
  transmitted (Send 42 n w extraNotification).1
  = Some (JObj [("String", JStr (Text "string")); ("Int", JNum 1); ("Bool", JBool true)]).
Proof. reflexivity. Qed.

(** *** The round trip *)

(** C1, at a failing input. [Int] is 2^53 + 1. On its way through the
    [map[string]interface{}] of [Send] the number becomes a float64, and
    what [Receive] hands back holds 2^53. *)
Theorem round_trip_changes_large_int :
  let w := (Send 42 testFacade world_empty bigNotification).1 in
  exists w', 
    receive 1 testFacade w
    = Some (w', Ok (mkNotification 42 testing 1 (AVal (TPtr TestData) (VPtr (Some 0%nat))))) /\
    mem w' !! 0%nat = Some (testData (Text "string") (2 ^ 53) true).
Proof. eexists. split; vm_compute; reflexivity. Qed.

(** At the largest [int] the transmitted number no longer fits an [int]
    and the message cannot be received at all. *)
Example round_trip_fails_at_max_int :
  let x := mkNotification 0 testing 1 (AVal TestData (testData (Text "string") max_int64 true)) in
  let w := (Send 42 testFacade world_empty x).1 in
  snd <$> receive 1 testFacade w = Some (Fail ErrJSON).
Proof. vm_compute. reflexivity. Qed.

(** *** The round trip, where it holds *)

Lemma GoType_rect' (P : GoType -> Prop) :
  P TBool -> P TInt -> P TString ->
  (forall fields, Forall (fun f => P (snd f)) fields -> P (TStruct fields)) ->
  (forall elem, P elem -> P (TPtr elem)) ->
  forall t, P t.
Proof.
  intros Hb Hi Hs Hst Hp.
  fix IH 1. intros [| | |fields|elem].
  - exact Hb.
  - exact Hi.
  - exact Hs.
  - apply Hst. induction fields as [|[k t] fields IHf]; constructor.
    + apply IH.
    + exact IHf.
  - apply Hp, IH.
Qed.





Lemma decode_struct (fields : list (string * GoType)) (members : list (string * json))
    (vs : list GoValue) (s : dstate) :
  decode (JObj members) (TStruct fields) (VStruct vs) s
  = let '(vs', s') := decode_members fields members vs s in (VStruct vs', s').
Proof.
  revert vs s. induction members as [|[k j] members IH]; intros vs s; [done|].
  simpl in *. destruct (find_field fields k) as [[i ft]|]; [|apply IH].
  destruct (decode j ft (default (zero ft) (vs !! i)) s) as [fv s']. apply IH.
Qed.

















(** * Further properties *)

(** ** buffer.go *)

Lemma copy_take_drop (dst src : list Z) :
  Buf.copy dst src
  = (take (Nat.min (length src) (length dst)) src
       ++ drop (Nat.min (length src) (length dst)) dst,
     Nat.min (length src) (length dst)).
Proof.
  revert src. induction dst as [|d dst IH]; intros [|s src]; simpl; try done.
  rewrite IH. done.
Qed.

(** X1. [Read] puts the first [min (len b) (len p)] bytes of the buffer at
    the front of [p], leaves the rest of [p] as it was, and returns that
    number together with [io.EOF], also when the buffer holds more than
    [p] can take. *)
Theorem Read_prefix (b p : list Z) :
  Buf.Read b p
  = (take (Nat.min (length b) (length p)) b ++ drop (Nat.min (length b) (length p)) p,
     Nat.min (length b) (length p), Some Buf.EOF).
Proof.
  unfold Buf.Read. rewrite copy_take_drop. simpl.
  destruct (length p <? length b)%nat eqn:Hlt.
  - apply Nat.ltb_lt in Hlt. by rewrite Nat.min_r by lia.
  - apply Nat.ltb_ge in Hlt. by rewrite Nat.min_l by lia.
Qed.

Lemma WriteAll_concat (b : list Z) (chunks : list (list Z)) :
  Buf.WriteAll b chunks = b ++ concat chunks.
Proof.
  revert b. induction chunks as [|c chunks IH]; intros b; simpl.
  - by rewrite app_nil_r.
  - unfold Buf.WriteAll in *. simpl. rewrite IH. by rewrite <- app_assoc.
Qed.

(** X2. What a run of [Write]s has put into an empty buffer, a [Read]
    into a slice that is long enough gives back whole and in order, with
    its length as the count; each [Write] itself reports 0 bytes written
    and no error, whatever it appended. *)
Theorem Write_Read_round_trip (chunks : list (list Z)) (p : list Z) :
  (length (concat chunks) <= length p)%nat ->
  Buf.Read (Buf.WriteAll [] chunks) p
  = (concat chunks ++ drop (length (concat chunks)) p, length (concat chunks), Some Buf.EOF)
  /\ Forall (fun c => forall b, (Buf.Write b c).1.2 = 0%nat /\ (Buf.Write b c).2 = None) chunks.
Proof.
  intros Hlen. split.
  - rewrite Read_prefix, WriteAll_concat. simpl.
    rewrite Nat.min_l by done. by rewrite firstn_all.
  - apply Forall_forall. intros c _ b. done.
Qed.

Lemma Write_Read_round_trip_witness :
  Buf.Read (Buf.WriteAll [] [[104; 105]; []; [33]]) [0; 0; 0; 0; 0]
  = ([104; 105; 33; 0; 0], 3%nat, Some Buf.EOF).
Proof.
  apply (proj1 (Write_Read_round_trip [[104; 105]; []; [33]] [0; 0; 0; 0; 0]
                  ltac:(simpl; lia))).
Defined.

(** ** AddSchema *)

Lemma lookup_schema_AddSchema (n : Notifications) (d : Schema) (type : gostring) (version : Z) :
  lookup_schema (Schemas (AddSchema n d).1) type version
  = if decide ((type, version) = (schema_Type d, schema_Version d))
    then Some (default d (lookup_schema (Schemas n) type version))
    else lookup_schema (Schemas n) type version.
Proof.
  destruct (decide _) as [[= -> ->]|Hne]; [|by apply lookup_schema_AddSchema_other].
  destruct (lookup_schema (Schemas n) (schema_Type d) (schema_Version d)) as [d0|] eqn:Hl.
  - rewrite (AddSchema_present n d) by (rewrite Hl; eauto). done.
  - simpl. apply lookup_schema_AddSchema_ok. by apply AddSchema_absent.
Qed.

Lemma AddSchema_result (n : Notifications) (d : Schema) :
  (AddSchema n d).2
  = match lookup_schema (Schemas n) (schema_Type d) (schema_Version d) with
    | Some _ => Some (ErrSchemaExists (schema_Type d) (schema_Version d))
    | None => None
    end.
Proof.
  destruct (lookup_schema (Schemas n) (schema_Type d) (schema_Version d)) as [d0|] eqn:Hl.
  - rewrite (AddSchema_present n d) by (rewrite Hl; eauto). done.
  - by apply AddSchema_absent.
Qed.

(** X3. [AddSchema] accepts a descriptor exactly when nothing is registered
    under its type and version; whether it accepts or not, the queue URL
    and the rate stay, and so does what is found under every other pair. *)
Theorem AddSchema_accepts_iff_new (n : Notifications) (d : Schema) :
  ((AddSchema n d).2 = None
   <-> lookup_schema (Schemas n) (schema_Type d) (schema_Version d) = None) /\
  QueueURL (AddSchema n d).1 = QueueURL n /\
  Rate (AddSchema n d).1 = Rate n /\
  forall type version,
    (type, version) ≠ (schema_Type d, schema_Version d) ->
    lookup_schema (Schemas (AddSchema n d).1) type version
    = lookup_schema (Schemas n) type version.
Proof.
  split; [|split; [|split]].
  - rewrite AddSchema_result.
    destruct (lookup_schema (Schemas n) (schema_Type d) (schema_Version d)); split; done.
  - unfold AddSchema. destruct (Schemas n !! schema_Type d) as [schemas|]; [|done].
    by destruct (schemas !! schema_Version d).
  - unfold AddSchema. destruct (Schemas n !! schema_Type d) as [schemas|]; [|done].
    by destruct (schemas !! schema_Version d).
  - intros type version Hne. by apply lookup_schema_AddSchema_other.
Qed.

Lemma AddSchema_accepts_iff_new_witness :
  lookup_schema (Schemas (AddSchema testFacade (mkSchema testing 2 ENil)).1) testing 1
  = Some testSchema.
Proof.
  apply (proj2 (proj2 (proj2 (AddSchema_accepts_iff_new testFacade (mkSchema testing 2 ENil))))
           testing 1).
  simpl. intros [= ?].
Defined.

(** X4. Descriptors with different (type, version) pairs can be registered
    in either order: each [AddSchema] returns the same in both orders, and
    the same descriptor is found under every pair afterwards. *)
Theorem AddSchema_commutes (n : Notifications) (d1 d2 : Schema) :
  (schema_Type d1, schema_Version d1) ≠ (schema_Type d2, schema_Version d2) ->
  (AddSchema (AddSchema n d2).1 d1).2 = (AddSchema n d1).2 /\
  (AddSchema (AddSchema n d1).1 d2).2 = (AddSchema n d2).2 /\
  forall type version,
    lookup_schema (Schemas (AddSchema (AddSchema n d1).1 d2).1) type version
    = lookup_schema (Schemas (AddSchema (AddSchema n d2).1 d1).1) type version.
Proof.
  intros Hne. split; [|split].
  - rewrite !AddSchema_result, lookup_schema_AddSchema.
    by rewrite decide_False by done.
  - rewrite !AddSchema_result, lookup_schema_AddSchema.
    by rewrite decide_False by congruence.
  - intros type version. rewrite !lookup_schema_AddSchema.
    destruct (decide ((type, version) = (schema_Type d2, schema_Version d2))) as [E2|N2];
      destruct (decide ((type, version) = (schema_Type d1, schema_Version d1))) as [E1|N1];
      try done.
    congruence.
Qed.

Lemma AddSchema_commutes_witness :
  let d2 := mkSchema (Text "other") 1 ENil in
  lookup_schema (Schemas (AddSchema (AddSchema (New "q") testSchema).1 d2).1) testing 1
  = lookup_schema (Schemas (AddSchema (AddSchema (New "q") d2).1 testSchema).1) testing 1.
Proof.
  intros d2.
  apply (proj2 (proj2 (AddSchema_commutes (New "q") testSchema d2 ltac:(discriminate)))).
Defined.

(** ** receive *)

Lemma handle_calls {Q : Type} `{!SQS Q} (n : Notifications) (w : world Q)
    (notifications : list Message) :
  exists tail,
    calls (handle n w notifications).1 = calls w ++ tail /\
    (tail = [] \/ exists rh, tail = [CallDelete (QueueURL n) rh]) /\
    (forall x, (handle n w notifications).2 = Ok x -> tail ≠ []).
Proof.
  destruct notifications as [|message rest]; simpl.
  { exists []. rewrite app_nil_r. split; [done|]. split; [by left|done]. }
  destruct (decode_message n (mem w) message) as [h [x|e|]]; simpl.
  - unfold sqs_delete. simpl.
    destruct (DeleteMessage (queue w) (QueueURL n) (ReceiptHandle message)) as [q [e|]];
      simpl; eexists; (split; [reflexivity|]); (split; [right; eauto|done]).
  - exists []. rewrite app_nil_r. split; [done|]. split; [by left|done].
  - exists []. rewrite app_nil_r. split; [done|]. split; [by left|done].
Qed.

Lemma receive_S {Q : Type} `{!SQS Q} (polls : nat) (n : Notifications) (w : world Q) :
  receive (S polls) n w
  = match sqs_receive w (QueueURL n) with
    | (w', inl err) => Some (w', Fail err)
    | (w', inr []) => receive polls n w'
    | (w', inr notifications) => Some (handle n w' notifications)
    end.
Proof. reflexivity. Qed.

(** X5. A [receive] that returns has polled the queue at least once and
    then made at most one more call, a [DeleteMessage]: its log is the old
    one, then [k] [ReceiveMessage]s on the queue URL, then nothing or one
    deletion; it has deleted whenever it returns a notification, and it
    never sends. *)
Theorem receive_log {Q : Type} `{!SQS Q} (polls : nat) (n : Notifications) (w w' : world Q)
    (r : outcome Notification) :
  receive polls n w = Some (w', r) ->
  exists k tail,
    (1 <= k <= polls)%nat /\
    calls w' = calls w ++ replicate k (CallReceive (QueueURL n)) ++ tail /\
    (tail = [] \/ exists rh, tail = [CallDelete (QueueURL n) rh]) /\
    (forall x, r = Ok x -> tail ≠ []).
Proof.
  revert w. induction polls as [|polls IH]; intros w Hr; [done|].
  rewrite receive_S in Hr.
  destruct (sqs_receive w (QueueURL n)) as [w1 res] eqn:Hpoll.
  assert (Hw1 : calls w1 = calls w ++ [CallReceive (QueueURL n)]).
  { unfold sqs_receive in Hpoll.
    destruct (ReceiveMessage (queue w) (QueueURL n)) as [q res'].
    by injection Hpoll as <- _. }
  destruct res as [err|[|message rest]].
  - injection Hr as <- <-. exists 1%nat, []. split; [lia|].
    split; [by rewrite Hw1|]. split; [by left|done].
  - destruct (IH _ Hr) as (k & tail & Hk & Hc & Ht & Hok).
    exists (S k), tail. split; [lia|]. split; [|done].
    rewrite Hc, Hw1. simpl. by rewrite <- !app_assoc.
  - assert (Hh : handle n w1 (message :: rest) = (w', r)) by congruence.
    destruct (handle_calls n w1 (message :: rest)) as (tail & Hc & Ht & Hok).
    rewrite Hh in Hc, Hok. simpl in Hc, Hok.
    exists 1%nat, tail. split; [lia|]. split; [|split; [done|]].
    + rewrite Hc, Hw1. simpl. by rewrite <- !app_assoc.
    + intros x ->. by apply (Hok x).
Qed.

Lemma receive_log_witness :
  let w0 := mkWorld (mkMemq [message_v1] 1 None None None) [] ∅ in
  exists w' r k tail,
    receive 2 testFacade w0 = Some (w', r) /\
    calls w' = replicate k (CallReceive "test-queue") ++ tail.
Proof.
  intros w0.
  destruct (receive 2 testFacade w0) as [[w' r]|] eqn:Hr; [|vm_compute in Hr; discriminate].
  destruct (receive_log 2 testFacade w0 w' r Hr) as (k & tail & _ & Hc & _).
  exists w', r, k, tail. split; [reflexivity|exact Hc].
Defined.





(** ** handle, further *)

Lemma decode_message_Ok (n : Notifications) (h h' : heap) (message : Message)
    (x : Notification) :
  decode_message n h message = (h', Ok x) ->
  exists body env schema t ex,
    Body message = Some body /\
    UnmarshalNotification body Notification_zero = Ok env /\
    lookup_schema (Schemas n) (Type_ env) (Version env) = Some schema /\
    schema_Schema schema = EVal t ex /\
    x = mkNotification (Time env) (Type_ env) (Version env)
          (AVal (TPtr t) (VPtr (Some (fresh_addr h)))) /\
    is_Some (h' !! fresh_addr h).
Proof.
  unfold decode_message.
  destruct (Body message) as [body|]; [|done].
  destruct (UnmarshalNotification body Notification_zero) as [env|e|] eqn:Hu; [|done..].
  destruct (lookup_schema (Schemas n) (Type_ env) (Version env)) as [schema|] eqn:Hl; [|done].
  destruct (Data env) as [|t v| | |]; try done.
  destruct t; try done. destruct v as [| |s| |]; try done.
  destruct (DecodeString s) as [data|e|]; [|done..].
  destruct (schema_Schema schema) as [|t ex] eqn:Hx; [done|].
  unfold alloc, UnmarshalPtr. destruct data as [raw|j]; [done|].
  destruct (decode j t _ _) as [v' [h2 e]]. destruct e; [done|].
  intros [= <- <-]. exists body, env, schema, t, ex.
  repeat split; try done. rewrite lookup_insert_eq. eauto.
Qed.

(** X8. A notification [handle] returns carries the time, type and
    version of the envelope, and its data is a non-nil pointer of type
    pointer-to-[t], for [t] the type of the exemplar registered under that
    type and version; the cell it points to was not in use before and
    holds a value afterwards. *)
Theorem handle_result_shape {Q : Type} `{!SQS Q} (n : Notifications) (w w' : world Q)
    (message : Message) (rest : list Message) (x : Notification) :
  handle n w (message :: rest) = (w', Ok x) ->
  exists body env schema t ex,
    Body message = Some body /\
    UnmarshalNotification body Notification_zero = Ok env /\
    lookup_schema (Schemas n) (Type_ env) (Version env) = Some schema /\
    schema_Schema schema = EVal t ex /\
    x = mkNotification (Time env) (Type_ env) (Version env)
          (AVal (TPtr t) (VPtr (Some (fresh_addr (mem w))))) /\
    (fresh_addr (mem w) ∉ dom (mem w)) /\
    is_Some (mem w' !! fresh_addr (mem w)).
Proof.
  unfold handle.
  destruct (decode_message n (mem w) message) as [h [x0|e|]] eqn:Hd; [|done..].
  unfold sqs_delete. simpl.
  destruct (DeleteMessage (queue w) (QueueURL n) (ReceiptHandle message)) as [q [e|]]; [done|].
  intros [= <- <-].
  destruct (decode_message_Ok n _ _ _ _ Hd)
    as (body & env & schema & t & ex & H1 & H2 & H3 & H4 & H5 & H6).
  exists body, env, schema, t, ex. simpl.
  repeat split; try done. unfold fresh_addr. apply is_fresh.
Qed.

Lemma handle_result_shape_witness :
  let w := mkWorld (mkMemq [message_v1] 1 None None None) [] ∅ in
  let x := mkNotification 7 testing 1 (AVal (TPtr TestData) (VPtr (Some 0%nat))) in
  exists t, Data x = AVal (TPtr t) (VPtr (Some (fresh_addr ∅))) /\
    is_Some (mem (handle testFacade w [message_v1]).1 !! fresh_addr ∅).
Proof.
  intros w x.
  assert (Hh : handle testFacade w [message_v1] = ((handle testFacade w [message_v1]).1, Ok x))
    by reflexivity.
  destruct (handle_result_shape testFacade w _ message_v1 [] x Hh)
    as (body & env & schema & t & ex & H1 & H2 & H3 & H4 & Hx & H5 & Hcell).
  exists t. split; [by rewrite Hx|exact Hcell].
Defined.

(** X9. [handle] does not panic on a message that has a body, whose
    ["notification"] member, if the envelope decodes, is a string, when no
    schema is registered with a nil exemplar. *)
Theorem handle_no_panic {Q : Type} `{!SQS Q} (n : Notifications) (w : world Q)
    (body : bytes) (rh : option string) (rest : list Message) :
  (forall env, UnmarshalNotification body Notification_zero = Ok env ->
     exists s, Data env = AVal TString (VString s)) ->
  (forall type version schema,
     lookup_schema (Schemas n) type version = Some schema -> schema_Schema schema ≠ ENil) ->
  (handle n w (mkMessage (Some body) rh :: rest)).2 ≠ Panic.
Proof.
  intros Hstr Hex. unfold handle, decode_message. simpl.
  destruct (UnmarshalNotification body Notification_zero) as [env|e|] eqn:Hu; simpl; try done.
  - destruct (Hstr env eq_refl) as [s ->].
    destruct (lookup_schema (Schemas n) (Type_ env) (Version env)) as [schema|] eqn:Hl; [|done].
    destruct s as [txt|time|data]; simpl; try done.
    destruct (schema_Schema schema) as [|t ex] eqn:Hx; [by destruct (Hex _ _ _ Hl)|].
    unfold alloc. destruct (UnmarshalPtr _ data t _) as [h2 [e|]]; [done|].
    unfold sqs_delete. simpl.
    by destruct (DeleteMessage (queue w) (QueueURL n) rh) as [q [e|]].
  - destruct body as [raw|j]; [done|]. simpl in Hu.
    destruct j; try done. by destruct (store_members members Notification_zero).
Qed.

Lemma handle_no_panic_witness :
  (handle testFacade world_empty [message_v1]).2 ≠ Panic.
Proof.
  apply (handle_no_panic testFacade world_empty (envelope testing 1 payload_ok) (Some "h") []).
  - intros env Hu. injection Hu as <-. eexists. reflexivity.
  - intros type version schema Hl Hnil. unfold testFacade in Hl.
    rewrite lookup_schema_AddSchema in Hl.
    destruct (decide ((type, version) = (schema_Type testSchema, schema_Version testSchema)));
      [|done].
    injection Hl as <-. destruct (lookup_schema (Schemas (New "test-queue")) type version) eqn:E;
      [done|]. discriminate Hnil.
Defined.

(** *** What decoding leaves alone *)

Lemma json_ind_nested (P : json -> Prop) :
  P JNull -> (forall b, P (JBool b)) -> (forall n, P (JNum n)) -> (forall s, P (JStr s)) ->
  (forall items, Forall P items -> P (JArr items)) ->
  (forall members, Forall (fun m => P m.2) members -> P (JObj members)) ->
  forall j, P j.
Proof.
  intros Hnull Hbool Hnum Hstr Harr Hobj.
  fix IH 1. intros [|b|n|s|items|members].
  - exact Hnull.
  - apply Hbool.
  - apply Hnum.
  - apply Hstr.
  - apply Harr. induction items as [|i items IHi]; constructor.
    + apply IH.
    + exact IHi.
  - apply Hobj. induction members as [|[k j] members IHm]; constructor.
    + apply IH.
    + exact IHm.
Qed.

Lemma ptrs_outside_struct (D : gset addr) (vs : list GoValue) :
  ptrs_outside D (VStruct vs) <-> Forall (ptrs_outside D) vs.
Proof.
  simpl. induction vs as [|v vs IH]; [by split|].
  rewrite Forall_cons. by rewrite IH.
Qed.

Lemma ptrs_outside_zero (D : gset addr) (t : GoType) : ptrs_outside D (zero t).
Proof.
  induction t as [| | |fields IH|elem IH] using GoType_rect'; try done.
  change (ptrs_outside D (VStruct (List.map (fun f => zero (snd f)) fields))).
  apply ptrs_outside_struct. induction IH; constructor; done.
Qed.

Lemma keeps_refl (D : gset addr) (h : heap) (v : GoValue) (e : bool) :
  heap_outside D h -> ptrs_outside D v -> keeps D h (v, (h, e)).
Proof. intros Hh Hv. split; [done|]. split; [done|]. split; done. Qed.

Lemma keeps_store (D : gset addr) (h h' : heap) (a : addr) (v : GoValue) (e : bool) :
  a ∉ D ->
  keeps D h (v, (h', e)) ->
  keeps D h (VPtr (Some a), (<[a := v]> h', e)).
Proof.
  intros Ha (Hagree & Hdom & Hout & Hv). simpl in *.
  split; [|split; [|split]]; simpl.
  - intros a0 Ha0. rewrite lookup_insert_ne by (intros ->; done). by apply Hagree.
  - rewrite dom_insert_L. set_solver.
  - intros a0 v0 Hl Ha0. destruct (decide (a0 = a)) as [->|Hne].
    + rewrite lookup_insert_eq in Hl. by injection Hl as <-.
    + rewrite lookup_insert_ne in Hl by done. by apply (Hout a0).
  - done.
Qed.

Lemma decode_null (t : GoType) (u : GoValue) (s : dstate) :
  decode JNull t u s = (match t with TPtr _ => VPtr None | _ => u end, s).
Proof. by destruct t. Qed.

Lemma decode_ptr (j : json) (elem : GoType) (u : GoValue) (s : dstate) :
  j ≠ JNull ->
  decode j (TPtr elem) u s
  = match u with
    | VPtr (Some a) =>
        let '(v', (h', e')) := decode j elem (default (zero elem) (s.1 !! a)) s in
        (VPtr (Some a), (<[a := v']> h', e'))
    | _ =>
        let '(h1, a) := alloc s.1 (zero elem) in
        let '(v', (h', e')) := decode j elem (zero elem) (h1, s.2) in
        (VPtr (Some a), (<[a := v']> h', e'))
    end.
Proof. intros Hj. by destruct j. Qed.

Lemma decode_keeps_ptr (D : gset addr) (j : json) (elem : GoType) :
  decode_keeps D j elem -> decode_keeps D j (TPtr elem).
Proof.
  intros IH u h e HD Hh Hu.
  destruct (decide (j = JNull)) as [->|Hj].
  { rewrite decode_null. by apply keeps_refl. }
  rewrite decode_ptr by done. simpl.
  destruct u as [| | | |[a|]];
    try (set (a := fresh (dom h));
         assert (Ha : a ∉ dom h) by apply is_fresh;
         assert (Hk : keeps D (<[a := zero elem]> h)
                        (decode j elem (zero elem) (<[a := zero elem]> h, e)));
         [ apply IH;
           [ rewrite dom_insert_L; set_solver
           | intros a0 v0 Hl Ha0; destruct (decide (a0 = a)) as [->|Hne];
             [ rewrite lookup_insert_eq in Hl; injection Hl as <-; apply ptrs_outside_zero
             | rewrite lookup_insert_ne in Hl by done; by apply (Hh a0) ]
           | apply ptrs_outside_zero ]
         | unfold alloc, fresh_addr; fold a;
           destruct (decode j elem (zero elem) (<[a := zero elem]> h, e)) as [v' [h' e']];
           apply keeps_store; [set_solver|];
           destruct Hk as (Hagree & Hdom & Hout & Hv); simpl in *;
           split; [|split; [|split]]; simpl; try done;
           [ intros a0 Ha0; rewrite Hagree by done;
             rewrite lookup_insert_ne; [done|set_solver]
           | rewrite dom_insert_L in Hdom; set_solver ] ]).
  assert (Hk : keeps D h (decode j elem (default (zero elem) (h !! a)) (h, e))).
  { apply IH; [done|done|]. destruct (h !! a) as [c|] eqn:Hc; simpl.
    - by apply (Hh a c).
    - apply ptrs_outside_zero. }
  destruct (decode j elem (default (zero elem) (h !! a)) (h, e)) as [v' [h' e']].
  by apply keeps_store.
Qed.

Lemma keeps_trans (D : gset addr) (h h1 : heap) (v1 : GoValue) (e1 : bool)
    (r : GoValue * dstate) :
  keeps D h (v1, (h1, e1)) -> keeps D h1 r -> keeps D h r.
Proof.
  intros (Ha1 & Hd1 & _ & _) (Ha2 & Hd2 & Ho2 & Hv2). simpl in *.
  split; [|split; [|split]]; try done.
  - intros a Ha. rewrite Ha2 by done. by apply Ha1.
  - set_solver.
Qed.

Lemma decode_keeps_scalar (D : gset addr) (j : json) (t : GoType) :
  match t with TBool | TInt | TString => True | _ => False end ->
  decode_keeps D j t.
Proof.
  intros Ht u h e HD Hh Hu.
  destruct t; try done; destruct j; simpl;
    try (by apply keeps_refl); try (by split; [done|split; [done|split; done]]).
  destruct (in_int64 n); [by apply keeps_refl|].
  by split; [done|split; [done|split; done]].
Qed.

Lemma decode_struct_any (fields : list (string * GoType)) (members : list (string * json))
    (u : GoValue) (s : dstate) :
  decode (JObj members) (TStruct fields) u s
  = let vs := match u with
              | VStruct vs => vs
              | _ => List.map (fun f => zero (snd f)) fields
              end in
    let '(vs', s') := decode_members fields members vs s in (VStruct vs', s').
Proof.
  destruct u as [b|n|x|vs|p]; try apply decode_struct;
    change (decode (JObj members) (TStruct fields) ?u s)
      with (decode (JObj members) (TStruct fields)
              (VStruct (List.map (fun f => zero (snd f)) fields)) s);
    apply decode_struct.
Qed.

Lemma decode_members_keeps (D : gset addr) (fields : list (string * GoType))
    (members : list (string * json)) :
  Forall (fun m => forall t, decode_keeps D m.2 t) members ->
  forall (vs : list GoValue) (h : heap) (e : bool),
    D ⊆ dom h -> heap_outside D h -> Forall (ptrs_outside D) vs ->
    keeps D h (VStruct (decode_members fields members vs (h, e)).1,
               (decode_members fields members vs (h, e)).2).
Proof.
  induction 1 as [|[k j] members Hj _ IH]; intros vs h e HD Hh Hvs; simpl.
  { apply keeps_refl; [done|]. by apply ptrs_outside_struct. }
  destruct (find_field fields k) as [[i ft]|]; [|by apply IH].
  assert (Hk : keeps D h (decode j ft (default (zero ft) (vs !! i)) (h, e))).
  { apply Hj; [done|done|]. destruct (vs !! i) as [c|] eqn:Hc; simpl.
    - by eapply Forall_lookup_1.
    - apply ptrs_outside_zero. }
  destruct (decode j ft (default (zero ft) (vs !! i)) (h, e)) as [fv [h1 e1]].
  eapply keeps_trans; [exact Hk|].
  destruct Hk as (_ & Hd1 & Ho1 & Hv1). simpl in *.
  apply IH; [set_solver|done|]. by apply Forall_insert.
Qed.

Lemma decode_keeps_by_type (D : gset addr) (j : json) :
  (forall fields, decode_keeps D j (TStruct fields)) ->
  forall t, decode_keeps D j t.
Proof.
  intros Hstruct t. induction t as [| | |fields|elem IH].
  - by apply decode_keeps_scalar.
  - by apply decode_keeps_scalar.
  - by apply decode_keeps_scalar.
  - apply Hstruct.
  - by apply decode_keeps_ptr.
Qed.

(** Decoding writes to no cell of [D] when the value it decodes into, and
    every cell outside [D], hold no pointer into [D]. *)
Lemma decode_keeps_all (D : gset addr) (j : json) (t : GoType) : decode_keeps D j t.
Proof.
  revert t. induction j as [|b|n|s|items _|members IH] using json_ind_nested;
    apply decode_keeps_by_type; intros fields u h e HD Hh Hu;
    try (simpl; first [by apply keeps_refl | by split; [done|split; [done|split; done]]]).
  rewrite decode_struct_any.
  pose proof (decode_members_keeps D fields members IH
                (match u with
                 | VStruct vs => vs
                 | _ => List.map (fun f => zero (snd f)) fields
                 end) h e HD Hh) as Hk.
  cbv zeta.
  destruct (decode_members fields members _ (h, e)) as [vs' s'].
  apply Hk. destruct u as [| | |vs|]; try by apply ptrs_outside_struct.
  all: apply (proj1 (ptrs_outside_struct D _)), (ptrs_outside_zero D (TStruct fields)).
Qed.

Lemma UnmarshalPtr_fresh_keeps (h : heap) (data : bytes) (t : GoType) (a : addr) :
  a ∈ dom h ->
  (UnmarshalPtr (alloc h (zero t)).1 data t (alloc h (zero t)).2).1 !! a = h !! a.
Proof.
  intros Ha. unfold alloc, UnmarshalPtr. simpl.
  set (f := fresh_addr h).
  assert (Hf : f ∉ dom h) by (unfold f, fresh_addr; apply is_fresh).
  assert (Hne : f ≠ a) by (intros ->; done).
  destruct data as [raw|j]; simpl; [by rewrite lookup_insert_ne|].
  rewrite lookup_insert_eq. simpl.
  pose proof (decode_keeps_all (dom h) j t (zero t) (<[f := zero t]> h) false) as Hk.
  destruct (decode j t (zero t) (<[f := zero t]> h, false)) as [v' [h' e]].
  destruct Hk as (Hagree & _).
  - rewrite dom_insert_L. set_solver.
  - intros a0 v0 Hl Ha0. destruct (decide (a0 = f)) as [->|Hn].
    + rewrite lookup_insert_eq in Hl. injection Hl as <-. apply ptrs_outside_zero.
    + rewrite lookup_insert_ne in Hl by done. destruct Ha0. by apply (elem_of_dom_2 h a0 v0).
  - apply ptrs_outside_zero.
  - simpl in *. rewrite lookup_insert_ne by done. rewrite Hagree by done.
    by rewrite lookup_insert_ne.
Qed.

Lemma decode_message_keeps (n : Notifications) (h : heap) (message : Message) (a : addr) :
  a ∈ dom h -> (decode_message n h message).1 !! a = h !! a.
Proof.
  intros Ha. unfold decode_message.
  destruct (Body message) as [body|]; [|done].
  destruct (UnmarshalNotification body Notification_zero) as [env|e|]; [|done..].
  destruct (lookup_schema (Schemas n) (Type_ env) (Version env)) as [schema|]; [|done].
  destruct (Data env) as [|t v| | |]; try done.
  destruct t; try done. destruct v as [| |s| |]; try done.
  destruct (DecodeString s) as [data|e|]; [|done..].
  destruct (schema_Schema schema) as [|t ex]; [done|].
  pose proof (UnmarshalPtr_fresh_keeps h data t a Ha) as Hk.
  destruct (alloc h (zero t)) as [h1 f]. simpl in Hk.
  destruct (UnmarshalPtr h1 data t f) as [h2 [e|]]; done.
Qed.

(** X10. [handle] writes to no cell that was in use before it ran,
    whatever the message and whatever the exemplar (pointers and structs of
    pointers included): the value it decodes goes to cells it has
    allocated. Exemplar targets and the data of notifications returned
    earlier are left as they are. *)
Theorem handle_keeps_cells {Q : Type} `{!SQS Q} (n : Notifications) (w : world Q)
    (notifications : list Message) (a : addr) :
  a ∈ dom (mem w) ->
  mem (handle n w notifications).1 !! a = mem w !! a.
Proof.
  intros Ha. unfold handle. destruct notifications as [|message rest]; [done|].
  pose proof (decode_message_keeps n (mem w) message a Ha) as Hk.
  destruct (decode_message n (mem w) message) as [h [x|e|]]; simpl in *; try done.
  unfold sqs_delete. simpl.
  by destruct (DeleteMessage (queue w) (QueueURL n) (ReceiptHandle message)) as [q [e|]].
Qed.

Lemma handle_keeps_cells_witness :
  let w := mkWorld (mkMemq [message_v1] 1 None None None) [] {[ 0%nat := VInt 5 ]} in
  mem (handle testFacade w [message_v1]).1 !! 0%nat = Some (VInt 5).
Proof.
  intros w.
  rewrite (handle_keeps_cells testFacade w [message_v1] 0%nat); [reflexivity|].
  apply elem_of_dom. eexists. reflexivity.
Defined.

(** ** handle, channel revision *)

(** X11. The channel revision of [handle] is the synchronous one run on
    each message of the batch in turn, every result written on the
    channel, until the batch ends or a message makes it panic. *)
Theorem handle_ch_iterates {Q : Type} `{!SQS Q} (n : Notifications) (w : world Q)
    (message : Message) (messages : list Message) :
  handle_ch n w (message :: messages)
  = let '(w1, r) := handle n w [message] in
    if is_panic r then (w1, [Panic])
    else let '(w2, rs) := handle_ch n w1 messages in (w2, r :: rs).
Proof.
  unfold handle, decode_message. destruct w as [q cs h]. simpl.
  destruct (Body message) as [body|]; [|done].
  destruct (UnmarshalNotification body Notification_zero) as [x|e|]; [|done..].
  destruct (lookup_schema (Schemas n) (Type_ x) (Version x)) as [schema|]; [|done].
  destruct (Data x) as [|t v| | |]; try done.
  destruct t; try done. destruct v as [| |s| |]; try done.
  destruct (DecodeString s) as [data|e|]; [|done..].
  destruct (schema_Schema schema) as [|t v]; [done|].
  unfold alloc.
  destruct (UnmarshalPtr _ data t _) as [h2 [e|]]; [done|].
  unfold sqs_delete, set_mem. simpl.
  by destruct (DeleteMessage q (QueueURL n) (ReceiptHandle message)) as [q' [e|]].
Qed.

(** X12. On a batch, the channel revision writes at most one value per
    message, exactly one unless it panics; its only calls on the queue are
    [DeleteMessage]s, at most one per value written and at least one per
    notification written. *)
Theorem handle_ch_counts {Q : Type} `{!SQS Q} (n : Notifications) (w : world Q)
    (messages : list Message) :
  exists dels,
    calls (handle_ch n w messages).1 = calls w ++ dels /\
    Forall (fun c => is_delete c = true) dels /\
    (length (List.filter is_ok (handle_ch n w messages).2) <= length dels)%nat /\
    (length dels <= length (handle_ch n w messages).2)%nat /\
    (length (handle_ch n w messages).2 <= length messages)%nat /\
    (Forall (fun r => is_panic r = false) (handle_ch n w messages).2 ->
     length (handle_ch n w messages).2 = length messages).
Proof.
  revert w. induction messages as [|message messages IH]; intros w.
  { exists []. simpl. rewrite app_nil_r. repeat split; auto. }
  rewrite handle_ch_iterates.
  destruct (handle_calls n w [message]) as (tail & Hc & Ht & Hok).
  destruct (handle n w [message]) as [w1 r]. simpl in Hc, Hok.
  assert (Htail : Forall (fun c => is_delete c = true) tail /\ (length tail <= 1)%nat).
  { destruct Ht as [->|[rh ->]]; split; simpl; auto. }
  destruct Htail as [Hdel Hlen].
  destruct r as [x|e|]; simpl.
  - destruct (IH w1) as (dels & Hc' & Hd' & H1 & H2 & H3 & H4).
    destruct (handle_ch n w1 messages) as [w2 rs]. simpl in *.
    exists (tail ++ dels). rewrite Hc', Hc, <- app_assoc.
    assert (length tail = 1%nat).
    { destruct Ht as [->|[rh ->]]; [by destruct (Hok x)|done]. }
    rewrite length_app. repeat split; try lia.
    + by apply Forall_app.
    + intros Hall. apply Forall_cons in Hall as [_ Hall]. by rewrite H4.
  - destruct (IH w1) as (dels & Hc' & Hd' & H1 & H2 & H3 & H4).
    destruct (handle_ch n w1 messages) as [w2 rs]. simpl in *.
    exists (tail ++ dels). rewrite Hc', Hc, <- app_assoc.
    rewrite length_app. repeat split; try lia.
    + by apply Forall_app.
    + intros Hall. apply Forall_cons in Hall as [_ Hall]. by rewrite H4.
  - exists tail. simpl. repeat split; try done; try lia.
    intros Hall. by apply Forall_cons in Hall as [? _].
Qed.

Lemma handle_ch_counts_witness :
  let w := mkWorld (mkMemq [message_v1; message_v2] 2 None None None) [] ∅ in
  length (handle_ch testFacade w [message_v1; message_v2]).2 = 2%nat.
Proof.
  intros w.
  destruct (handle_ch_counts testFacade w [message_v1; message_v2])
    as (dels & _ & _ & _ & _ & _ & Hall).
  apply Hall. repeat constructor.
Defined.

(** ** Send, further *)

Lemma set_mem_mem {Q : Type} (w : world Q) : set_mem w (mem w) = w.
Proof. by destruct w. Qed.

(** X13. [Send] makes at most one call on the queue, a [SendMessage] on
    the facade's queue URL, and exactly that one whenever it returns
    without error; it never receives and never deletes. *)
Theorem Send_log {Q : Type} `{!SQS Q} (now : Z) (n : Notifications) (w : world Q)
    (x : Notification) :
  exists tail,
    calls (Send now n w x).1 = calls w ++ tail /\
    (tail = [] \/ exists body, tail = [CallSend (QueueURL n) body]) /\
    ((Send now n w x).2 = Ok tt -> tail ≠ []).
Proof.
  unfold Send.
  destruct (lookup_schema (Schemas n) (Type_ x) (Version x)) as [schema|].
  2: { exists []. rewrite app_nil_r. split; [done|]. split; [by left|done]. }
  unfold Marshal.
  destruct (UnmarshalAny (mem w) _ (any_of (schema_Schema schema))) as [[h sc] [e|]].
  { exists []. simpl. rewrite app_nil_r. split; [done|]. split; [by left|done]. }
  unfold sqs_send. simpl.
  destruct (SendMessage (queue w) (QueueURL n) _) as [q [e|]]; simpl;
    eexists; (split; [reflexivity|]); (split; [right; eauto|done]).
Qed.

Lemma Send_log_witness :
  exists tail, calls (Send 42 testFacade world_empty testNotification).1 = tail /\ tail ≠ [].
Proof.
  destruct (Send_log 42 testFacade world_empty testNotification) as (tail & Hc & _ & Hok).
  exists tail. split; [exact Hc|]. apply Hok. reflexivity.
Defined.

Lemma UnmarshalAny_by_value (h : heap) (j : json) (ex : exemplar) :
  by_value ex = true ->
  UnmarshalAny h (Doc j) (any_of ex)
  = match generic j with
    | Some g => (h, g, None)
    | None => (h, any_of ex, Some ErrJSON)
    end.
Proof.
  intros Hv. unfold UnmarshalAny.
  destruct ex as [|t v]; simpl.
  { destruct (generic j); by destruct j. }
  destruct t as [| | | |elem]; try (destruct (generic j); by destruct j).
  destruct v as [| | | |[a|]]; try done;
    destruct elem; destruct (generic j); by destruct j.
Qed.

(** X14. When the exemplar is anything but a non-nil pointer, [Send] makes
    no use of it: whatever the type of the payload, it is sent, re-encoded
    from its generic form, if its numbers are within float64, and refused
    with a json error otherwise; the heap is not touched. *)
Theorem Send_by_value {Q : Type} `{!SQS Q} (now : Z) (n : Notifications) (w : world Q)
    (x : Notification) (schema : Schema) :
  lookup_schema (Schemas n) (Type_ x) (Version x) = Some schema ->
  by_value (schema_Schema schema) = true ->
  Send now n w x
  = match generic (marshal_any (mem w) (Data x)) with
    | Some g =>
        let '(w', e) := sqs_send w (QueueURL n) (envelope_of (mem w) now x g) in
        (w', match e with Some e => Fail e | None => Ok tt end)
    | None => (w, Fail ErrJSON)
    end.
Proof.
  intros Hl Hv. unfold Send, Marshal. rewrite Hl.
  rewrite (UnmarshalAny_by_value _ _ _ Hv).
  destruct (generic (marshal_any (mem w) (Data x))) as [g|]; rewrite set_mem_mem; [|done].
  unfold envelope_of. by destruct (sqs_send w (QueueURL n) _) as [w' [e|]].
Qed.

Lemma Send_by_value_witness :
  let x := mkNotification 0 testing 1 (AVal TString (VString (Text "not a TestData"))) in
  Send 42 testFacade world_empty x
  = ((sqs_send world_empty "test-queue"
        (envelope_of ∅ 42 x (AVal TString (VString (Text "not a TestData"))))).1, Ok tt).
Proof.
  intros x.
  rewrite (Send_by_value 42 testFacade world_empty x testSchema eq_refl eq_refl).
  reflexivity.
Defined.



(** *** Decoding into the exemplar's own type *)
















(** ** The envelope *)



